(** * LaurelBuildTool, header-only sample: [utils::filter], [utils::sum],
    [utils::average]

    A shallow embedding of [samples/header-only/include/utils/algorithm.hpp]
    and of the data used by [samples/header-only/src/main.cpp].

    The three functions take their argument by [const std::vector<T>&].  The
    embedding keeps the caller's vector in a store and runs the functions in a
    small state monad over it, so that what is read, what is written and what
    is called can all be observed:
    - iterators are positions in the vector, dereferencing outside of it is
      undefined behaviour ([Undefined]);
    - [result.push_back] writes the local vector [result] of [filter];
    - every call of the predicate and every division is recorded in a trace.
    [double] is IEEE binary64, taken from Rocq's primitive floats. *)

From Stdlib Require Import ZArith Zquot List Sorted Permutation Lia Floats.
From stdpp Require Import base list.
Import ListNotations.

Local Open Scope Z_scope.

(** ** Numeric element types *)

(** What [sum] and [average] ask of [T]: the value [T{0}], [operator+], and
    [static_cast<double>]. *)
Class Numeric (T : Type) := {
  zero : T;
  add : T -> T -> T;
  to_double : T -> float
}.

(** [int]: 32 bits, two's complement; a sum that leaves the range wraps. *)
Definition int32 : Type := Z.

Definition wrap32 (z : Z) : Z := (z + 2 ^ 31) mod 2 ^ 32 - 2 ^ 31.

Definition int32_add (a b : int32) : int32 := wrap32 (a + b).

(** The conversion of an integer to [double]: the nearest binary64 value,
    ties to even (exact up to [2^53] in magnitude). *)
Definition Z_to_double (z : Z) : float :=
  SF2Prim (binary_normalize prec emax z 0 false).

(** [static_cast<double>(z)] for an [int]. *)
Definition int32_to_double (z : int32) : float := Z_to_double z.

#[export] Instance int32_Numeric : Numeric int32 := {
  zero := 0;
  add := int32_add;
  to_double := int32_to_double
}.

#[export] Instance double_Numeric : Numeric float := {
  zero := 0%float;
  add := PrimFloat.add;
  to_double := fun x => x
}.

(** The conversion of [vec.size()] (a [size_t]) to [double] that the division
    in [average] performs on its right operand. *)
Definition size_to_double (n : nat) : float := Z_to_double (Z.of_nat n).

(** ** The store and the monad *)

Section Machine.
Context {T : Type}.

(** What a run lets one observe besides its result. *)
Inductive event : Type :=
| Invoke (item : T)                  (* predicate(item) was called *)
| Divide (num : float) (count : nat) (* num / count was computed *).

Record store : Type := Store {
  vec : list T;       (* the caller's vector behind the const reference *)
  result : list T;    (* the local [result] of [filter] *)
  trace : list event  (* calls and divisions so far, oldest first *)
}.

Inductive outcome (A : Type) : Type :=
| Ok (a : A) (st : store)
| Undefined.

Definition M (A : Type) : Type := store -> outcome A.

Definition ret {A} (a : A) : M A := fun st => Ok A a st.

Definition bind {A B} (m : M A) (k : A -> M B) : M B :=
  fun st =>
    match m st with
    | Ok _ a st' => k a st'
    | Undefined _ => Undefined B
    end.

Definition log (e : event) : M unit :=
  fun st => Ok unit tt {| vec := vec st; result := result st; trace := trace st ++ [e] |}.

(** [vec.size()], [vec.empty()] and [*it] for an iterator at position [it]. *)
Definition vec_size : M nat := fun st => Ok nat (length (vec st)) st.

Definition vec_empty : M bool :=
  fun st => Ok bool (match vec st with [] => true | _ :: _ => false end) st.

Definition deref (it : nat) : M T :=
  fun st =>
    match vec st !! it with
    | Some item => Ok T item st
    | None => Undefined T
    end.

(** [std::vector<T> result;], [result.push_back(item)], [return result;]. *)
Definition declare_result : M unit :=
  fun st => Ok unit tt {| vec := vec st; result := []; trace := trace st |}.

Definition push_back (item : T) : M unit :=
  fun st => Ok unit tt {| vec := vec st; result := result st ++ [item]; trace := trace st |}.

Definition return_result : M (list T) := fun st => Ok (list T) (result st) st.

End Machine.

Arguments event : clear implicits.
Arguments store : clear implicits.
Arguments M : clear implicits.
Arguments Ok {T A} a st.
Arguments Undefined {T A}.

Declare Scope run_scope.
Delimit Scope run_scope with run.
Notation "x <- m ;; k" := (bind m (fun x => k))
  (at level 100, m at next level, right associativity) : run_scope.
Notation "m ;;; k" := (bind m (fun _ => k))
  (at level 100, right associativity) : run_scope.
Local Open Scope run_scope.

(** ** namespace utils *)

Module utils.
Section Generic.
Context {T : Type}.

(** A call through the function pointer [predicate], of type
    pointer to [bool(const T&)]. *)
Definition invoke (predicate : T -> bool) (item : T) : M T bool :=
  log (Invoke item) ;;; ret (predicate item).

(** [for (const auto& item : vec) body]: the iterator [it] runs from
    [vec.begin()] to [vec.end()], both taken once before the loop; [dist] is
    the number of positions left before [vec.end()]. *)
Fixpoint range_for (dist it : nat) (body : T -> M T unit) : M T unit :=
  match dist with
  | O => ret tt
  | S dist' =>
      item <- deref it ;;
      body item ;;;
      range_for dist' (S it) body
  end.

Definition filter (predicate : T -> bool) : M T (list T) :=
  declare_result ;;;
  n <- vec_size ;;
  range_for n 0
    (fun item =>
       keep <- invoke predicate item ;;
       if keep then push_back item else ret tt) ;;;
  return_result.

Context `{Numeric T}.

(** [std::accumulate(first, last, init)]:
    [for (; first != last; ++first) init = init + *first; return init;]
    with [dist] the distance from [first] to [last]. *)
Fixpoint accumulate (dist first : nat) (init : T) : M T T :=
  match dist with
  | O => ret init
  | S dist' =>
      x <- deref first ;;
      accumulate dist' (S first) (add init x)
  end.

Definition sum : M T T :=
  n <- vec_size ;;
  accumulate n 0 zero.

(** The division [static_cast<double>(sum(vec)) / vec.size()]. *)
Definition divide (num : float) (count : nat) : M T float :=
  log (Divide num count) ;;;
  ret (PrimFloat.div num (size_to_double count)).

Definition average : M T float :=
  e <- vec_empty ;;
  if e then ret 0%float
  else
    s <- sum ;;
    n <- vec_size ;;
    divide (to_double s) n.

End Generic.
End utils.

(** ** Calling the functions *)

(** The store in which a caller holding the vector [S] makes a call. *)
Definition enter {T} (S : list T) : store T :=
  {| vec := S; result := []; trace := [] |}.

Definition value {T A} (o : @outcome T A) : option A :=
  match o with
  | Ok a _ => Some a
  | Undefined => None
  end.

(** ** The data of main.cpp *)

Definition numbers : list int32 := [1; 2; 3; 4; 5; 6; 7; 8; 9; 10].

(** [n % 2 == 0]; [%] truncates towards zero. *)
Definition is_even (n : int32) : bool := Z.rem n 2 =? 0.

(** main.cpp, lines 21 to 24: [std::vector<int> filtered;] and the loop
    that pushes the even elements of [numbers] onto it.  [numbers] is the
    vector of the store and [filtered] its local vector; the test is written
    in the loop body, no function is called. *)
Definition collect_even : M int32 (list int32) :=
  declare_result ;;;
  n <- vec_size ;;
  utils.range_for n 0
    (fun n => if is_even n then push_back n else ret tt) ;;;
  return_result.

(** ** Exact integer sums *)

(** The sum of a list of integers in unbounded arithmetic, and the values
    the accumulator of [std::accumulate] would hold after each addition if
    [int] were unbounded. *)
Definition exact_sum (S : list Z) : Z := fold_right Z.add 0 S.

Fixpoint partial_sums (init : Z) (S : list Z) : list Z :=
  match S with
  | [] => []
  | x :: S' => (init + x) :: partial_sums (init + x) S'
  end.

(** [INT_MIN <= z <= INT_MAX]. *)
Definition in_int32 (z : Z) : bool := (- 2 ^ 31 <=? z) && (z <? 2 ^ 31).

(** ** Running the loops *)

Section Runs.
Context {T : Type}.
Implicit Types (st : store T) (S pre rest : list T) (P : T -> bool).

Lemma store_eta st :
  {| vec := vec st; result := result st; trace := trace st |} = st.
Proof. by destruct st. Qed.

(** The iterator at the distance [length pre] from [vec.begin()] refers to
    the first element after [pre]. *)
Lemma deref_middle st pre x rest :
  vec st = pre ++ x :: rest -> deref (length pre) st = Ok x st.
Proof.
  intros Hvec. unfold deref. by rewrite Hvec, list_lookup_middle.
Qed.

(** The loop of [filter] from any position on: it walks the rest of the
    vector, appends what [P] accepts to [result], calls [P] on each element
    it passes, and leaves [vec] alone. *)
Lemma range_for_filter P rest :
  forall pre st,
    vec st = pre ++ rest ->
    utils.range_for (length rest) (length pre)
      (fun item =>
         keep <- utils.invoke P item ;;
         if keep then push_back item else ret tt) st
    = Ok tt {| vec := vec st;
               result := result st ++ List.filter P rest;
               trace := trace st ++ map Invoke rest |}.
Proof.
  induction rest as [|x rest IH]; intros pre st Hvec.
  - cbn. unfold ret. by rewrite !app_nil_r, store_eta.
  - cbn [length utils.range_for]. unfold bind at 1.
    rewrite (deref_middle st pre x rest Hvec).
    unfold bind at 1. unfold bind at 1. unfold utils.invoke, bind, log, ret.
    cbn [List.filter map].
    assert (Hlen : S (length pre) = length (pre ++ [x]))
      by (rewrite length_app; cbn; lia).
    rewrite Hlen.
    destruct (P x); cbn [push_back].
    + rewrite IH by (cbn; by rewrite <- app_assoc).
      cbn. by rewrite <- !app_assoc.
    + rewrite IH by (cbn; by rewrite <- app_assoc).
      cbn. by rewrite <- !app_assoc.
Qed.

(** A whole call of [filter]. *)
Lemma filter_run P st :
  utils.filter P st
  = Ok (List.filter P (vec st))
       {| vec := vec st;
          result := List.filter P (vec st);
          trace := trace st ++ map Invoke (vec st) |}.
Proof.
  unfold utils.filter.
  unfold bind at 1. cbn [declare_result].
  unfold bind at 1. cbn [vec_size vec].
  unfold bind at 1.
  rewrite (range_for_filter P (vec st) []) by done.
  by cbn.
Qed.

(** What [List.filter] keeps is a subsequence of the list, satisfies the
    predicate, and contains every other such subsequence. *)
Lemma kept_sublist P S : sublist (List.filter P S) S.
Proof.
  induction S as [|x S IH]; cbn; [constructor|].
  destruct (P x); by constructor.
Qed.

Lemma kept_Forall P S : Forall (fun x => P x = true) (List.filter P S).
Proof.
  induction S as [|x S IH]; cbn; [constructor|].
  destruct (P x) eqn:HPx; [by constructor | done].
Qed.

Lemma kept_greatest P S R :
  sublist R S -> Forall (fun x => P x = true) R -> sublist R (List.filter P S).
Proof.
  induction 1 as [|x R S _ IH|x R S _ IH]; intros HR; cbn.
  - constructor.
  - inversion HR as [|? ? HPx HR']; subst. rewrite HPx.
    constructor. by apply IH.
  - destruct (P x); [constructor|]; by apply IH.
Qed.

Lemma kept_all P S : Forall (fun x => P x = true) S -> List.filter P S = S.
Proof.
  induction 1 as [|x S HPx _ IH]; cbn; [done|]. by rewrite HPx, IH.
Qed.

Lemma kept_none P S : Forall (fun x => P x = false) S -> List.filter P S = [].
Proof.
  induction 1 as [|x S HPx _ IH]; cbn; [done|]. by rewrite HPx.
Qed.

Context `{Numeric T}.

(** The loop of [std::accumulate] from any position on. *)
Lemma accumulate_run rest :
  forall pre st init,
    vec st = pre ++ rest ->
    utils.accumulate (length rest) (length pre) init st
    = Ok (fold_left add rest init) st.
Proof.
  induction rest as [|x rest IH]; intros pre st init Hvec; [done|].
  cbn [length utils.accumulate fold_left]. unfold bind.
  rewrite (deref_middle st pre x rest Hvec).
  assert (Hlen : S (length pre) = length (pre ++ [x]))
    by (rewrite length_app; cbn; lia).
  rewrite Hlen. apply IH. by rewrite <- app_assoc.
Qed.

Lemma sum_run st : utils.sum st = Ok (fold_left add (vec st) zero) st.
Proof.
  unfold utils.sum, bind. cbn [vec_size].
  by apply (accumulate_run (vec st) []).
Qed.

(** A whole call of [average]: what it returns and what it divides. *)
Lemma average_run st :
  utils.average st
  = match vec st with
    | [] => Ok 0%float st
    | _ :: _ =>
        let num := to_double (fold_left add (vec st) zero) in
        let count := length (vec st) in
        Ok (PrimFloat.div num (size_to_double count))
           {| vec := vec st; result := result st;
              trace := trace st ++ [Divide num count] |}
    end.
Proof.
  unfold utils.average. unfold bind at 1. cbn [vec_empty].
  destruct (vec st) as [|x S] eqn:Hvec; [done|].
  unfold bind at 1. rewrite sum_run.
  unfold bind, vec_size, utils.divide, bind, log, ret.
  by rewrite Hvec.
Qed.

End Runs.

(** ** Properties of [filter] *)

Section FilterProperties.
Context {T : Type}.
Implicit Types (st : store T) (S R : list T) (P : T -> bool).

(** C1. For every vector and predicate, [filter] returns a new vector, held
    in [result], that consists of exactly the elements of the argument on
    which the predicate yields true, in their order in the argument: it is a
    subsequence of the argument, all of its elements satisfy the predicate,
    every subsequence of the argument whose elements satisfy the predicate is
    a subsequence of it, and an element occurs in it iff it occurs in the
    argument and satisfies the predicate.  It is no longer than the
    argument. *)
Theorem filter_exact P st :
  exists R st',
    utils.filter P st = Ok R st' /\
    result st' = R /\
    R = List.filter P (vec st) /\
    sublist R (vec st) /\
    Forall (fun x => P x = true) R /\
    (forall R', sublist R' (vec st) ->
                Forall (fun x => P x = true) R' -> sublist R' R) /\
    (forall x, In x R <-> In x (vec st) /\ P x = true) /\
    (length R <= length (vec st))%nat.
Proof.
  eexists _, _. split; [apply filter_run|]. cbn [result].
  split_and!; [done | done | | | | |].
  - apply kept_sublist.
  - apply kept_Forall.
  - apply kept_greatest.
  - intros x. apply filter_In.
  - apply sublist_length, kept_sublist.
Qed.

(** C5. With a predicate that yields true on every element, [filter] returns
    the argument itself: the same elements in the same order. *)
Theorem filter_always_true P st :
  (forall x, P x = true) ->
  exists st', utils.filter P st = Ok (vec st) st'.
Proof.
  intros HP. eexists. rewrite filter_run.
  rewrite kept_all; [done|]. apply Forall_forall. auto.
Qed.

(** C6. With a predicate that yields false on every element, [filter]
    returns the empty vector. *)
Theorem filter_always_false P st :
  (forall x, P x = false) ->
  exists st', utils.filter P st = Ok [] st'.
Proof.
  intros HP. eexists. rewrite filter_run.
  rewrite kept_none; [done|]. apply Forall_forall. auto.
Qed.

(** C9. [filter] calls the predicate once on each element of the argument,
    first element first and last element last: the calls it adds to the trace
    are the elements of the argument, one call each, in their order. *)
Theorem filter_invokes_each_once_in_order P st :
  exists R st',
    utils.filter P st = Ok R st' /\
    trace st' = trace st ++ map Invoke (vec st).
Proof.
  eexists _, _. split; [apply filter_run|done].
Qed.

(** C10. [filter] is idempotent: called on its own result with the same
    predicate, it returns that result again. *)
Theorem filter_idempotent P st :
  exists R st1,
    utils.filter P st = Ok R st1 /\
    forall st2, vec st2 = R -> exists st3, utils.filter P st2 = Ok R st3.
Proof.
  eexists _, _. split; [apply filter_run|].
  intros st2 Hvec. eexists. rewrite filter_run, Hvec.
  by rewrite (kept_all P (List.filter P (vec st))) by apply kept_Forall.
Qed.

End FilterProperties.

Lemma filter_always_true_witness :
  (forall x : int32, (fun _ : int32 => true) x = true) /\
  exists st', utils.filter (fun _ : int32 => true) (enter numbers) = Ok numbers st'.
Proof.
  split; [reflexivity|].
  apply (filter_always_true (fun _ : int32 => true) (enter numbers)).
  reflexivity.
Defined.

Lemma filter_always_false_witness :
  (forall x : int32, (fun _ : int32 => false) x = false) /\
  exists st', utils.filter (fun _ : int32 => false) (enter numbers) = Ok [] st'.
Proof.
  split; [reflexivity|].
  apply (filter_always_false (fun _ : int32 => false) (enter numbers)).
  reflexivity.
Defined.

(** ** Properties of [sum] and [average] *)

Section NumericProperties.
Context {T : Type} `{Numeric T}.
Implicit Types (st : store T) (S : list T) (P : T -> bool).

(** C2. [sum] returns the left fold of [+] over the elements of the argument
    in their order, with the zero of [T] as the first accumulator; on the
    empty vector it returns that zero. *)
Theorem sum_left_fold st :
  exists s,
    utils.sum st = Ok s st /\
    s = fold_left add (vec st) zero /\
    (vec st = [] -> s = zero).
Proof.
  eexists. split; [apply sum_run|]. split; [done|].
  by intros ->.
Qed.

(** C3. On a non-empty vector [average] returns the [double] quotient of
    [sum] of the vector, converted to [double], by the length of the vector;
    on the empty vector it returns 0.0 and does not fail. *)
Theorem average_quotient st :
  exists s st1 q st',
    utils.sum st = Ok s st1 /\
    utils.average st = Ok q st' /\
    (vec st <> [] ->
     q = PrimFloat.div (to_double s) (size_to_double (length (vec st)))) /\
    (vec st = [] -> q = 0%float).
Proof.
  rewrite sum_run, average_run.
  destruct (vec st) as [|x S] eqn:Hvec.
  - eexists _, _, _, _. split_and!; done.
  - eexists _, _, _, _. split_and!; done.
Qed.

(** C7. [average] never divides by zero: it always returns, the only
    division it can add to the trace is by the length of the argument, that
    length is greater than zero whenever the division is made, and on the
    empty vector it returns 0.0 with no division made. *)
Theorem average_divides_by_positive st :
  exists q st' new,
    utils.average st = Ok q st' /\
    trace st' = trace st ++ new /\
    (forall num count,
       In (Divide num count) new ->
       count = length (vec st) /\ (0 < count)%nat) /\
    (vec st = [] -> new = [] /\ q = 0%float) /\
    (vec st <> [] -> exists num, new = [Divide num (length (vec st))]).
Proof.
  rewrite average_run.
  destruct (vec st) as [|x S] eqn:Hvec.
  - exists 0%float, st, []. split_and!; [done | by rewrite app_nil_r | | done | done].
    intros num count [].
  - eexists _, _, _. split_and!; [done | done | | done | eauto].
    intros num count [Heq|[]]. injection Heq as _ <-. cbn. split; [done|lia].
Qed.

(** C8. None of [filter], [sum] and [average] changes the vector it is
    given: each returns, and the caller's vector after the call is the one
    before the call. *)
Theorem input_not_mutated P st :
  (exists R st', utils.filter P st = Ok R st' /\ vec st' = vec st) /\
  (exists s st', utils.sum st = Ok s st' /\ vec st' = vec st) /\
  (exists q st', utils.average st = Ok q st' /\ vec st' = vec st).
Proof.
  split_and!.
  - eexists _, _. split; [apply filter_run|done].
  - eexists _, _. split; [apply sum_run|done].
  - rewrite average_run. destruct (vec st) eqn:Hvec; eexists _, _; split; done.
Qed.

End NumericProperties.

(** ** The element types at work *)

(** On [double] the order of the fold shows: folding from the left, each 1
    is lost to rounding against [2^53]; folding from the right, the two
    add up first and survive. *)
Example sum_double_from_the_left :
  value (utils.sum (enter [9007199254740992; 1; 1]%float))
  = Some 9007199254740992%float /\
  fold_right PrimFloat.add 0%float [9007199254740992; 1; 1]%float
  = 9007199254740994%float.
Proof. split; vm_compute; reflexivity. Qed.

(** On [int] a sum past [INT_MAX] wraps to [INT_MIN]. *)
Example sum_int32_wraps :
  value (utils.sum (enter ([2147483647; 1] : list int32))) = Some (-2147483648).
Proof. vm_compute; reflexivity. Qed.

(** ** The scenarios *)

(** C4. On [1, 2, ..., 10]: [sum] is 55, [average] is 5.5, which lies
    strictly between 5 and 6, and [filter] with [is_even] is
    [2, 4, 6, 8, 10].  On [-3, 3]: [sum] is 0 and [average] is 0.0. *)
Theorem main_scenarios :
  value (utils.sum (enter numbers)) = Some 55 /\
  value (utils.average (enter numbers)) = Some 5.5%float /\
  PrimFloat.ltb 5 5.5 = true /\ PrimFloat.ltb 5.5 6 = true /\
  value (utils.filter is_even (enter numbers)) = Some [2; 4; 6; 8; 10] /\
  value (utils.sum (enter [-3; 3])) = Some 0 /\
  value (utils.average (enter ([-3; 3] : list int32))) = Some 0%float.
Proof.
  split_and!; vm_compute; reflexivity.
Qed.

(** ** Further properties of [filter] *)

Section FilterAlgebra.
Context {T : Type}.
Implicit Types (st : store T) (S R : list T) (P Q : T -> bool).

Lemma filter_value P st :
  value (utils.filter P st) = Some (List.filter P (vec st)).
Proof. by rewrite filter_run. Qed.

Lemma kept_StronglySorted (lt : T -> T -> Prop) P S :
  StronglySorted lt S -> StronglySorted lt (List.filter P S).
Proof.
  induction 1 as [|x S _ IH Hx]; cbn; [constructor|].
  destruct (P x); [|done]. constructor; [done|].
  rewrite List.Forall_forall in Hx |- *. intros y Hy.
  apply Hx. by apply filter_In in Hy as [Hy _].
Qed.

Lemma kept_partition P S :
  Permutation (List.filter P S ++ List.filter (fun x => negb (P x)) S) S.
Proof.
  induction S as [|x S IH]; cbn; [done|].
  destruct (P x); cbn.
  - by constructor.
  - symmetry. apply Permutation_cons_app. by symmetry.
Qed.

Lemma kept_twice P Q S :
  List.filter Q (List.filter P S) = List.filter (fun x => P x && Q x) S.
Proof.
  induction S as [|x S IH]; cbn; [done|].
  destruct (P x); cbn; [|done]. destruct (Q x); by rewrite IH.
Qed.

(** X1. [filter] distributes over concatenation: on a vector made of two
    parts it returns what it returns on the first part followed by what it
    returns on the second. *)
Theorem filter_concat P S1 S2 :
  exists R1 R2,
    value (utils.filter P (enter S1)) = Some R1 /\
    value (utils.filter P (enter S2)) = Some R2 /\
    value (utils.filter P (enter (S1 ++ S2))) = Some (R1 ++ R2).
Proof.
  eexists _, _. rewrite !filter_value. cbn [enter vec].
  by rewrite List.filter_app.
Qed.

(** X2. Filtering the result of a filter: [filter] with [Q] on what
    [filter] with [P] returned gives what one [filter] with the conjunction
    of [P] and [Q] gives on the original vector, and so does filtering in the
    other order. *)
Theorem filter_then_filter P Q S :
  exists RP RQ,
    value (utils.filter P (enter S)) = Some RP /\
    value (utils.filter Q (enter S)) = Some RQ /\
    value (utils.filter Q (enter RP))
    = value (utils.filter (fun x => P x && Q x) (enter S)) /\
    value (utils.filter P (enter RQ)) = value (utils.filter Q (enter RP)).
Proof.
  eexists _, _. rewrite !filter_value. cbn [enter vec].
  split_and!; [done | done | by rewrite kept_twice |].
  rewrite !kept_twice. f_equal. apply filter_ext. intros x. apply andb_comm.
Qed.

(** X3. [filter] with a predicate and [filter] with its negation split the
    vector: their results together are a rearrangement of the vector, no
    element lost and none repeated, and their lengths add up to the length
    of the vector. *)
Theorem filter_partition P st :
  exists R1 st1 R2 st2,
    utils.filter P st = Ok R1 st1 /\
    utils.filter (fun x => negb (P x)) st = Ok R2 st2 /\
    Permutation (R1 ++ R2) (vec st) /\
    (length R1 + length R2 = length (vec st))%nat.
Proof.
  eexists _, _, _, _. split; [apply filter_run|]. split; [apply filter_run|].
  split; [apply kept_partition|].
  rewrite <- length_app. apply Permutation_length, kept_partition.
Qed.

(** X4. [filter] keeps a sorted vector sorted, for any order: if each
    element of the argument is related to all elements after it, the same
    holds in the result. *)
Theorem filter_keeps_sorted (lt : T -> T -> Prop) P st :
  StronglySorted lt (vec st) ->
  exists R st', utils.filter P st = Ok R st' /\ StronglySorted lt R.
Proof.
  intros Hsorted. eexists _, _. split; [apply filter_run|].
  by apply kept_StronglySorted.
Qed.

(** X5. [filter] introduces no duplicates: on a vector of pairwise distinct
    elements its result has pairwise distinct elements. *)
Theorem filter_keeps_distinct P st :
  List.NoDup (vec st) ->
  exists R st', utils.filter P st = Ok R st' /\ List.NoDup R.
Proof.
  intros Hnodup. eexists _, _. split; [apply filter_run|].
  by apply List.NoDup_filter.
Qed.

(** X6. The result of [filter] depends on the predicate only through its
    values on the elements of the vector: two predicates that agree on every
    element give the same result. *)
Theorem filter_agree_on_elements P Q st :
  Forall (fun x => P x = Q x) (vec st) ->
  value (utils.filter P st) = value (utils.filter Q st).
Proof.
  intros Hagree. rewrite !filter_value. f_equal.
  apply filter_ext_in. by apply List.Forall_forall.
Qed.

(** X7. The first element of the result of [filter] is the first element of
    the vector that satisfies the predicate, and the result is empty exactly
    when there is no such element. *)
Theorem filter_first_match P st :
  exists R st',
    utils.filter P st = Ok R st' /\
    head R = List.find P (vec st) /\
    (R = [] <-> List.find P (vec st) = None).
Proof.
  eexists _, _. split; [apply filter_run|].
  assert (Hhead : head (List.filter P (vec st)) = List.find P (vec st)).
  { induction (vec st) as [|x S IH]; cbn; [done|]. by destruct (P x). }
  split; [done|]. rewrite <- Hhead.
  destruct (List.filter P (vec st)); cbn; split; congruence.
Qed.

(** X8. A weaker predicate keeps more: if on the elements of the vector [Q]
    holds wherever [P] does, the result of [filter] with [P] is a
    subsequence of the result of [filter] with [Q]. *)
Theorem filter_monotone P Q st :
  Forall (fun x => P x = true -> Q x = true) (vec st) ->
  exists RP stP RQ stQ,
    utils.filter P st = Ok RP stP /\
    utils.filter Q st = Ok RQ stQ /\
    sublist RP RQ.
Proof.
  intros Himp. eexists _, _, _, _.
  split; [apply filter_run|]. split; [apply filter_run|].
  apply kept_greatest; [apply kept_sublist|].
  rewrite List.Forall_forall in Himp |- *. intros x Hx.
  apply filter_In in Hx as [Hin HP]. by apply Himp.
Qed.

End FilterAlgebra.

Lemma filter_keeps_sorted_witness :
  StronglySorted Z.lt (vec (enter numbers)) /\
  exists R st', utils.filter is_even (enter numbers) = Ok R st' /\
                StronglySorted Z.lt R.
Proof.
  assert (Hsorted : StronglySorted Z.lt (vec (enter numbers)))
    by (repeat constructor; reflexivity).
  split; [exact Hsorted|].
  exact (filter_keeps_sorted Z.lt is_even (enter numbers) Hsorted).
Defined.

Lemma filter_keeps_distinct_witness :
  List.NoDup (vec (enter [3; 1; 2])) /\
  exists R st', utils.filter is_even (enter [3; 1; 2]) = Ok R st' /\
                List.NoDup R.
Proof.
  assert (Hnodup : List.NoDup (vec (enter [3; 1; 2]))).
  { repeat constructor; cbn; intuition discriminate. }
  split; [exact Hnodup|].
  exact (filter_keeps_distinct is_even (enter [3; 1; 2]) Hnodup).
Defined.

Lemma filter_agree_on_elements_witness :
  Forall (fun x => is_even x = Z.leb x 0) (vec (enter [-4; 3; 0; 7])) /\
  value (utils.filter is_even (enter [-4; 3; 0; 7]))
  = value (utils.filter (fun x => Z.leb x 0) (enter [-4; 3; 0; 7])).
Proof.
  assert (Hagree : Forall (fun x => is_even x = Z.leb x 0)
                          (vec (enter [-4; 3; 0; 7])))
    by (repeat constructor).
  split; [exact Hagree|].
  exact (filter_agree_on_elements is_even (fun x => Z.leb x 0)
           (enter [-4; 3; 0; 7]) Hagree).
Defined.

Lemma filter_monotone_witness :
  Forall (fun x => Z.ltb 8 x = true -> is_even x || Z.ltb 8 x = true)
         (vec (enter numbers)) /\
  exists RP stP RQ stQ,
    utils.filter (Z.ltb 8) (enter numbers) = Ok RP stP /\
    utils.filter (fun x => is_even x || Z.ltb 8 x) (enter numbers) = Ok RQ stQ /\
    sublist RP RQ.
Proof.
  assert (Himp : Forall (fun x => Z.ltb 8 x = true ->
                                  is_even x || Z.ltb 8 x = true)
                        (vec (enter numbers)))
    by (repeat constructor; cbn; intros Hlt; discriminate Hlt).
  split; [exact Himp|].
  exact (filter_monotone (Z.ltb 8) (fun x => is_even x || Z.ltb 8 x)
           (enter numbers) Himp).
Defined.

(** ** Further properties of [sum] and [average] *)

Section NumericAlgebra.
Context {T : Type} `{Numeric T}.
Implicit Types (st : store T) (S : list T) (P : T -> bool).

Lemma sum_value st :
  value (utils.sum st) = Some (fold_left add (vec st) zero).
Proof. by rewrite sum_run. Qed.

(** X9. [sum] after a [push_back]: the sum of a vector with one more element
    at its end is the sum of the vector plus that element, added last. *)
Theorem sum_push_back S x :
  exists s,
    value (utils.sum (enter S)) = Some s /\
    value (utils.sum (enter (S ++ [x]))) = Some (add s x).
Proof.
  eexists. rewrite !sum_value. cbn [enter vec].
  split; [done|]. by rewrite fold_left_app.
Qed.

(** X11. [average] of a filter that matched nothing: when the predicate
    rejects every element, [average] called on the result of [filter] returns
    0.0, makes no division and changes nothing. *)
Theorem average_of_unmatched_filter P st :
  Forall (fun x => P x = false) (vec st) ->
  exists R st1,
    utils.filter P st = Ok R st1 /\
    forall st2, vec st2 = R -> utils.average st2 = Ok 0%float st2.
Proof.
  intros Hnone. eexists _, _. split; [apply filter_run|].
  intros st2 Hvec. rewrite average_run, Hvec.
  by rewrite (kept_none P (vec st) Hnone).
Qed.

End NumericAlgebra.

Lemma average_of_unmatched_filter_witness :
  Forall (fun x => Z.ltb x 0 = false) (vec (enter numbers)) /\
  exists R st1,
    utils.filter (fun x => Z.ltb x 0) (enter numbers) = Ok R st1 /\
    forall st2, vec st2 = R -> utils.average st2 = Ok 0%float st2.
Proof.
  assert (Hnone : Forall (fun x => Z.ltb x 0 = false) (vec (enter numbers)))
    by (repeat constructor).
  split; [exact Hnone|].
  exact (average_of_unmatched_filter (fun x => Z.ltb x 0) (enter numbers) Hnone).
Defined.

(** ** [sum] on [int] without overflow *)

Lemma wrap32_id z : in_int32 z = true -> wrap32 z = z.
Proof.
  unfold in_int32, wrap32. intros Hz.
  apply andb_true_iff in Hz as [Hlo Hhi].
  apply Z.leb_le in Hlo. apply Z.ltb_lt in Hhi.
  change (2 ^ 31) with 2147483648 in *. change (2 ^ 32) with 4294967296.
  rewrite Z.mod_small by lia. lia.
Qed.

(** As long as no addition leaves the range of [int], the accumulator holds
    the exact sum. *)
Lemma fold_int32_exact (S : list int32) :
  forall init : int32,
    forallb in_int32 (partial_sums init S) = true ->
    fold_left int32_add S init = init + exact_sum S.
Proof.
  induction S as [|x S IH]; intros init Hfit; cbn.
  - lia.
  - cbn in Hfit. apply andb_true_iff in Hfit as [Hx Hrest].
    unfold int32_add at 2. rewrite (wrap32_id _ Hx).
    rewrite (IH _ Hrest). fold (exact_sum S). lia.
Qed.

(** X10. [sum] of a vector of [int] is the exact sum of its elements
    whenever no addition of the loop overflows, that is, whenever every
    partial sum from the left lies between [INT_MIN] and [INT_MAX]. *)
Theorem sum_int32_exact (st : store int32) :
  forallb in_int32 (partial_sums 0 (vec st)) = true ->
  utils.sum st = Ok (exact_sum (vec st)) st.
Proof.
  intros Hfit. rewrite sum_run. f_equal.
  exact (fold_int32_exact (vec st) 0 Hfit).
Qed.

Lemma sum_int32_exact_witness :
  forallb in_int32 (partial_sums 0 (vec (enter [2147483647; -5; 4]))) = true /\
  utils.sum (enter [2147483647; -5; 4])
  = Ok 2147483646 (enter [2147483647; -5; 4]).
Proof.
  split; [reflexivity|].
  exact (sum_int32_exact (enter [2147483647; -5; 4]) eq_refl).
Defined.

(** ** The loop of main.cpp *)

Section Collect.
Context {T : Type}.
Implicit Types (st : store T) (pre rest : list T) (P : T -> bool).

(** A range-for whose body tests the element in place and pushes it. *)
Lemma range_for_collect P rest :
  forall pre st,
    vec st = pre ++ rest ->
    utils.range_for (length rest) (length pre)
      (fun item => if P item then push_back item else ret tt) st
    = Ok tt {| vec := vec st;
               result := result st ++ List.filter P rest;
               trace := trace st |}.
Proof.
  induction rest as [|x rest IH]; intros pre st Hvec.
  - cbn. unfold ret. by rewrite app_nil_r, store_eta.
  - cbn [length utils.range_for]. unfold bind at 1.
    rewrite (deref_middle st pre x rest Hvec).
    unfold bind at 1. cbn [List.filter].
    assert (Hlen : S (length pre) = length (pre ++ [x]))
      by (rewrite length_app; cbn; lia).
    rewrite Hlen.
    destruct (P x); cbn [push_back ret].
    + rewrite IH by (cbn; by rewrite <- app_assoc).
      cbn. by rewrite <- app_assoc.
    + rewrite IH by (by rewrite <- app_assoc).
      done.
Qed.

End Collect.

Lemma collect_even_run (st : store int32) :
  collect_even st
  = Ok (List.filter is_even (vec st))
       {| vec := vec st;
          result := List.filter is_even (vec st);
          trace := trace st |}.
Proof.
  unfold collect_even.
  unfold bind at 1. cbn [declare_result].
  unfold bind at 1. cbn [vec_size vec].
  unfold bind at 1.
  rewrite (range_for_collect is_even (vec st) []) by done.
  by cbn.
Qed.

(** X12. The loop of [main] that collects the even numbers does what
    [utils::filter] does with the test [n % 2 == 0] as predicate, on every
    vector: both return the same vector and leave [numbers] as it was; the
    loop calls no function. *)
Theorem collect_even_is_filter (st : store int32) :
  exists R st1 st2,
    collect_even st = Ok R st1 /\
    utils.filter is_even st = Ok R st2 /\
    vec st1 = vec st /\
    trace st1 = trace st.
Proof.
  eexists _, _, _. split; [apply collect_even_run|].
  split; [apply filter_run|]. done.
Qed.

(** X13. The loop of [main] collects exactly the even elements, negative
    ones included: its result is the elements of the vector that are
    multiples of 2, in their order. *)
Theorem collect_even_exact (st : store int32) :
  exists R st',
    collect_even st = Ok R st' /\
    R = List.filter Z.even (vec st) /\
    forall n, In n R <-> In n (vec st) /\ exists k, n = 2 * k.
Proof.
  eexists _, _. split; [apply collect_even_run|].
  assert (Heven : List.filter is_even (vec st) = List.filter Z.even (vec st)).
  { apply filter_ext. intros n. unfold is_even. by rewrite Zeven_rem. }
  split; [done|]. intros n. rewrite Heven, filter_In.
  by rewrite Z.even_spec.
Qed.

(** ** More on order, overflow and the calls of main.cpp *)

(** X16. [filter] on a reversed vector returns the reverse of what it
    returns on the vector. *)
Theorem filter_reverse {T} (P : T -> bool) (S : list T) :
  exists R,
    value (utils.filter P (enter S)) = Some R /\
    value (utils.filter P (enter (rev S))) = Some (rev R).
Proof.
  eexists. rewrite !filter_value. cbn [enter vec].
  split; [done|]. by rewrite filter_rev.
Qed.

Lemma exact_sum_Permutation (S1 S2 : list Z) :
  Permutation S1 S2 -> exact_sum S1 = exact_sum S2.
Proof.
  unfold exact_sum. induction 1; cbn; lia.
Qed.

(** X14. [average] of a non-empty vector of [int] whose additions do not
    overflow is the exact sum of the elements, converted to [double], divided
    by the number of elements in [double]: nothing is truncated to an
    integer. *)
Theorem average_int32_exact (st : store int32) :
  vec st <> [] ->
  forallb in_int32 (partial_sums 0 (vec st)) = true ->
  exists st',
    utils.average st
    = Ok (PrimFloat.div (Z_to_double (exact_sum (vec st)))
                        (Z_to_double (Z.of_nat (length (vec st))))) st'.
Proof.
  intros Hne Hfit. rewrite average_run.
  destruct (vec st) as [|x S] eqn:Hvec; [done|].
  eexists. cbv zeta. do 2 f_equal.
  change (@to_double int32 _) with Z_to_double. f_equal.
  exact (fold_int32_exact (x :: S) 0 Hfit).
Qed.

Lemma average_int32_exact_witness :
  vec (enter [1; 2]) <> [] /\
  forallb in_int32 (partial_sums 0 (vec (enter [1; 2]))) = true /\
  exists st', utils.average (enter [1; 2]) = Ok 1.5%float st'.
Proof.
  assert (Hne : vec (enter [1; 2]) <> []) by discriminate.
  split; [exact Hne|]. split; [reflexivity|].
  exact (average_int32_exact (enter [1; 2]) Hne eq_refl).
Defined.

(** X15. On [int] the order of the elements does not matter to [sum] as long
    as nothing overflows: two vectors with the same elements in different
    orders, neither of which overflows on the way, have the same sum. *)
Theorem sum_int32_order_independent (st1 st2 : store int32) :
  Permutation (vec st1) (vec st2) ->
  forallb in_int32 (partial_sums 0 (vec st1)) = true ->
  forallb in_int32 (partial_sums 0 (vec st2)) = true ->
  value (utils.sum st1) = value (utils.sum st2).
Proof.
  intros Hperm Hfit1 Hfit2. rewrite !sum_value. f_equal.
  change (@add int32 _) with int32_add. change (@zero int32 _) with 0.
  rewrite (fold_int32_exact _ 0 Hfit1), (fold_int32_exact _ 0 Hfit2).
  f_equal. by apply exact_sum_Permutation.
Qed.

Lemma sum_int32_order_independent_witness :
  Permutation (vec (enter [5; -7])) (vec (enter [-7; 5])) /\
  value (utils.sum (enter [5; -7])) = value (utils.sum (enter [-7; 5])).
Proof.
  assert (Hperm : Permutation (vec (enter [5; -7])) (vec (enter [-7; 5])))
    by apply perm_swap.
  split; [exact Hperm|].
  exact (sum_int32_order_independent (enter [5; -7]) (enter [-7; 5])
           Hperm eq_refl eq_refl).
Defined.

Lemma average_returns {T} `{Numeric T} (st : store T) :
  exists a st', utils.average st = Ok a st' /\ vec st' = vec st.
Proof.
  rewrite average_run. destruct (vec st) eqn:Hvec; eexists _, _; split; done.
Qed.

(** X17. The calls that [main] makes one after the other on [numbers] do not
    affect each other: [average] after [sum], and the collecting loop after
    both, return what they return when run first, and [numbers] is the same
    at the end. *)
Theorem main_calls_do_not_interfere (st : store int32) :
  exists s st1 a st2 R st3,
    utils.sum st = Ok s st1 /\
    utils.average st1 = Ok a st2 /\
    collect_even st2 = Ok R st3 /\
    value (utils.average st) = Some a /\
    value (collect_even st) = Some R /\
    vec st3 = vec st.
Proof.
  destruct (average_returns st) as (a & st2 & Ha & Hvec2).
  exists (fold_left add (vec st) zero), st, a, st2,
    (List.filter is_even (vec st)),
    {| vec := vec st2; result := List.filter is_even (vec st2);
       trace := trace st2 |}.
  split; [apply sum_run|]. split; [exact Ha|].
  split; [by rewrite collect_even_run, Hvec2|].
  split; [by rewrite Ha|].
  split; [by rewrite collect_even_run|]. exact Hvec2.
Qed.
